(** * Financial-Advisor-Costs: fee drag on a compounding portfolio

    Shallow embedding of [investments.py] (the script) and of the class
    [InvestmentCalculator] of [test_investments.py].

    Numbers.  The Python code is written over whatever numeric type it is
    handed ([int], [float], [fractions.Fraction]); it only uses the literal
    [1], [+], [-], [*] and [**] with an integer exponent.  The development
    runs it three ways:
    - in exact arithmetic, over the rationals [Q] compared with [==]
      ([Qeq]), which is what the code computes on [Fraction] arguments
      (the class [InvestmentCalculator] and the script below);
    - over any arithmetic that provides those operations ([Arith],
      [Generic]), with the exact rationals ([exact]) and IEEE binary64
      ([binary64], on the kernel's primitive floats, the library power
      taken as a parameter) as instances;
    - under the standard model of rounded arithmetic ([StandardModel]):
      every operation returns its exact result up to a relative and an
      absolute error of [eps], which binary64 meets with [eps = 2^-52]
      away from overflow, and exact arithmetic with [eps = 0].

    Effects.  The methods of the class read the attributes of [self]; they
    are embedded in a state-and-exception monad over the object, so that the
    final state of the object is part of what a method returns.  The
    arithmetic raises [ZeroDivisionError] (zero to a negative power) and, on
    floats, [OverflowError] (a power too large for the format). *)

Set Warnings "-inexact-float".

From Stdlib Require Import ZArith QArith Qpower Qabs List Lia Lqa.
From Stdlib Require Import PrimFloat SpecFloat FloatOps.
Import ListNotations.

Open Scope Q_scope.

(** ** Python runtime pieces used by the code *)

Inductive exn : Type :=
| ZeroDivisionError
| OverflowError.

Inductive result (A : Type) : Type :=
| Ok (a : A)
| Raise (e : exn).

Arguments Ok {A} a.
Arguments Raise {A} e.

Class Monad (m : Type -> Type) : Type :=
  { ret : forall {A : Type}, A -> m A;
    bind : forall {A B : Type}, m A -> (A -> m B) -> m B }.

Declare Scope py_scope.
Delimit Scope py_scope with py.

Notation "x <- c ;; k" := (bind c (fun x => k))
  (at level 61, c at next level, right associativity) : py_scope.

Open Scope py_scope.

#[export] Instance Monad_result : Monad result :=
  { ret := fun A a => Ok a;
    bind := fun A B r k =>
      match r with
      | Ok a => k a
      | Raise e => Raise e
      end }.

(** [b ** e] for an integer exponent [e].  A negative exponent takes the
    reciprocal of the positive power; zero to a negative power raises. *)
Definition py_pow (b : Q) (e : Z) : result Q :=
  if ((e <? 0)%Z && Qeq_bool b 0)%bool
  then Raise ZeroDivisionError
  else Ok (b ^ e).

(** [range(n)]: the integers [0, 1, ..., n-1]; empty when [n <= 0]. *)
Definition range (n : Z) : list Z :=
  map Z.of_nat (seq 0 (Z.to_nat n)).

(** ** The class [InvestmentCalculator] *)

Record InvestmentCalculator : Type := mkCalc
  { initial_value : Q;
    fee_percentage : Q;
    years : Z;
    annual_return : Q }.

(** A method body: it runs on the object [self] and gives back a result (or
    the exception raised) together with the object as the body left it. *)
Definition Method (A : Type) : Type :=
  InvestmentCalculator -> result A * InvestmentCalculator.

#[export] Instance Monad_Method : Monad Method :=
  { ret := fun A a self => (Ok a, self);
    bind := fun A B m k self =>
      match m self with
      | (Ok a, self') => k a self'
      | (Raise e, self') => (Raise e, self')
      end }.

(** [self.field] *)
Definition getattr {A : Type} (field : InvestmentCalculator -> A) : Method A :=
  fun self => (Ok (field self), self).

(** An expression that does not touch [self] but may raise. *)
Definition eval_expr {A : Type} (r : result A) : Method A :=
  fun self => (r, self).

(** [for x in xs: acc = body(x, acc)] with [acc] a local variable. *)
Fixpoint for_each {A B : Type} (xs : list A) (body : A -> B -> Method B)
  (acc : B) : Method B :=
  match xs with
  | [] => ret acc
  | x :: xs' => acc' <- body x acc ;; for_each xs' body acc'
  end.

(** [def __init__(self, initial_value, fee_percentage, years, annual_return)] *)
Definition init (initial_value fee_percentage : Q) (years : Z)
  (annual_return : Q) : InvestmentCalculator :=
  mkCalc initial_value fee_percentage years annual_return.

(** [return self.initial_value * (1 + self.annual_return) ** self.years] *)
Definition future_value_no_fees : Method Q :=
  iv <- getattr initial_value ;;
  r <- getattr annual_return ;;
  y <- getattr years ;;
  p <- eval_expr (py_pow (1 + r) y) ;;
  ret (iv * p).

(** [portfolio_value = self.initial_value
     for year in range(self.years):
         portfolio_value *= (1 + self.annual_return - self.fee_percentage)
     return portfolio_value] *)
Definition future_value_with_fees : Method Q :=
  iv <- getattr initial_value ;;
  y <- getattr years ;;
  for_each (range y)
    (fun _year portfolio_value =>
       r <- getattr annual_return ;;
       f <- getattr fee_percentage ;;
       ret (portfolio_value * (1 + r - f)))
    iv.

(** [return self.future_value_no_fees() - self.future_value_with_fees()] *)
Definition total_fees_paid : Method Q :=
  no_fees <- future_value_no_fees ;;
  with_fees <- future_value_with_fees ;;
  ret (no_fees - with_fees).

(** [return self.future_value_no_fees() - self.future_value_with_fees()] *)
Definition opportunity_cost : Method Q :=
  no_fees <- future_value_no_fees ;;
  with_fees <- future_value_with_fees ;;
  ret (no_fees - with_fees).

(** The value a method returns, and the object it leaves behind. *)
Definition value_of {A : Type} (m : Method A) (self : InvestmentCalculator)
  : result A := fst (m self).

Definition object_after {A : Type} (m : Method A) (self : InvestmentCalculator)
  : InvestmentCalculator := snd (m self).

(** ** The script [investments.py] *)

Module Investments.

Definition initial_value : Q := 2000000.
Definition fee_percentage : Q := 1 # 100.
Definition years : Z := 15.
Definition annual_return : Q := 5 # 100.

(** The three amounts the script prints, in the order it prints them. *)
Record Printed : Type := mkPrinted
  { total_fees_paid : Q;
    opportunity_cost : Q;
    future_value_no_fees : Q }.

Definition main : result Printed :=
  p <- py_pow (1 + annual_return) years ;;
  let future_value_no_fees := initial_value * p in
  let portfolio_value_with_fees :=
    fold_left (fun pv _year => pv * (1 + annual_return - fee_percentage))
      (range years) initial_value in
  let total_fees_paid := future_value_no_fees - portfolio_value_with_fees in
  let opportunity_cost := future_value_no_fees - portfolio_value_with_fees in
  ret (mkPrinted total_fees_paid opportunity_cost future_value_no_fees).

End Investments.

(** ** The spec's closed form *)

(** The with-fee future value as the spec writes it:
    [initial_value * (1 + return_rate - fee_rate) ^ periods]. *)
Definition future_value_with_fee_closed_form (self : InvestmentCalculator) : Q :=
  initial_value self
  * (1 + annual_return self - fee_percentage self) ^ years self.

(** [a] is [b] up to the tolerance [tol]; a currency amount given to the cent
    is the value within half a cent, [tol = 1 # 200]. *)
Definition within (tol a b : Q) : Prop := Qabs (a - b) <= tol.

(** ** Auxiliary definitions *)

(** The body of the with-fee loop as a function of the local variable. *)
Definition grow (self : InvestmentCalculator) (portfolio_value : Q) (_year : Z) : Q :=
  portfolio_value * (1 + annual_return self - fee_percentage self).

(** ** The calculator over any arithmetic *)

(** The numeric operations the code uses, as the type of its arguments
    provides them: the literal [1], [+], [-], [*] and [**] with an [int]
    exponent (the only operation that can raise). *)
Record Arith : Type := mkArith
  { num : Type;
    one : num;
    add : num -> num -> num;
    sub : num -> num -> num;
    mul : num -> num -> num;
    power : num -> Z -> result num }.

Module Generic.

Section Calculator.

Variable A : Arith.

Record Calculator : Type := mkCalculator
  { initial_value : num A;
    fee_percentage : num A;
    years : Z;
    annual_return : num A }.

(** [1 + self.annual_return] *)
Definition no_fee_multiplier (self : Calculator) : num A :=
  add A (one A) (annual_return self).

(** [1 + self.annual_return - self.fee_percentage] *)
Definition with_fee_multiplier (self : Calculator) : num A :=
  sub A (add A (one A) (annual_return self)) (fee_percentage self).

(** [return self.initial_value * (1 + self.annual_return) ** self.years] *)
Definition future_value_no_fees (self : Calculator) : result (num A) :=
  p <- power A (no_fee_multiplier self) (years self) ;;
  ret (mul A (initial_value self) p).

(** [portfolio_value = self.initial_value
     for year in range(self.years):
         portfolio_value *= (1 + self.annual_return - self.fee_percentage)
     return portfolio_value] *)
Definition future_value_with_fees (self : Calculator) : result (num A) :=
  ret (fold_left
         (fun portfolio_value _year =>
            mul A portfolio_value (with_fee_multiplier self))
         (range (years self)) (initial_value self)).

(** [return self.future_value_no_fees() - self.future_value_with_fees()] *)
Definition total_fees_paid (self : Calculator) : result (num A) :=
  no_fees <- future_value_no_fees self ;;
  with_fees <- future_value_with_fees self ;;
  ret (sub A no_fees with_fees).

(** [return self.future_value_no_fees() - self.future_value_with_fees()] *)
Definition opportunity_cost (self : Calculator) : result (num A) :=
  no_fees <- future_value_no_fees self ;;
  with_fees <- future_value_with_fees self ;;
  ret (sub A no_fees with_fees).

(** The spec's closed form of the with-fee value,
    [initial_value * (1 + return_rate - fee_rate) ^ periods], evaluated in
    the same arithmetic. *)
Definition future_value_with_fee_closed_form (self : Calculator)
  : result (num A) :=
  p <- power A (with_fee_multiplier self) (years self) ;;
  ret (mul A (initial_value self) p).

End Calculator.

End Generic.

Arguments Generic.mkCalculator {A} _ _ _ _.
Arguments Generic.initial_value {A} _.
Arguments Generic.fee_percentage {A} _.
Arguments Generic.years {A} _.
Arguments Generic.annual_return {A} _.
Arguments Generic.no_fee_multiplier {A} _.
Arguments Generic.with_fee_multiplier {A} _.
Arguments Generic.future_value_no_fees {A} _.
Arguments Generic.future_value_with_fees {A} _.
Arguments Generic.total_fees_paid {A} _.
Arguments Generic.opportunity_cost {A} _.
Arguments Generic.future_value_with_fee_closed_form {A} _.

(** *** Exact rationals ([fractions.Fraction]) *)

Definition exact : Arith := mkArith Q 1 Qplus Qminus Qmult py_pow.

(** *** IEEE binary64 ([float]) *)

(** [b ** e] on a float [b]: [1.0] for [e = 0]; [ZeroDivisionError] for
    zero to a negative power; otherwise the C library's [pow], whose
    overflow to an infinity from a finite base raises [OverflowError]. *)
Definition float_pow (libm_pow : float -> Z -> float) (b : float) (e : Z)
  : result float :=
  if (e =? 0)%Z then Ok 1%float
  else if (PrimFloat.eqb b 0 && (e <? 0)%Z)%bool then Raise ZeroDivisionError
  else
    let p := libm_pow b e in
    if (is_infinity p && negb (is_infinity b))%bool
    then Raise OverflowError
    else Ok p.

(** The float operations are the kernel's binary64 operations, rounded to
    nearest even; the C library's [pow] is a parameter. *)
Definition binary64 (libm_pow : float -> Z -> float) : Arith :=
  mkArith float 1%float PrimFloat.add PrimFloat.sub PrimFloat.mul
    (float_pow libm_pow).

(** [InvestmentCalculator(initial_value, fee_percentage, years,
    annual_return)] on float arguments. *)
Definition float_calculator (initial_value fee_percentage : float) (years : Z)
  (annual_return : float) (libm_pow : float -> Z -> float)
  : Generic.Calculator (binary64 libm_pow) :=
  @Generic.mkCalculator (binary64 libm_pow)
    initial_value fee_percentage years annual_return.

(** The rational a finite float stands for (0 for infinities and NaN). *)
Definition float_value (x : float) : Q :=
  match Prim2SF x with
  | S754_finite s m e =>
      (if s then - (1) else 1) * inject_Z (Zpos m) * 2 ^ e
  | _ => 0
  end.

(** *** The standard model of rounded arithmetic *)

(** Results beyond this magnitude are not covered by the model (binary64
    overflows above 1.79e308). *)
Definition overflow_threshold : Q := inject_Z (10 ^ 300).

(** [x] is [y] up to a relative and an absolute error of [eps]. *)
Definition rounded (eps x y : Q) : Prop :=
  Qabs (x - y) <= eps * (Qabs y + 1).

(** An arithmetic whose numbers stand for rationals ([val]) and whose
    operations return the exact result up to [eps], as long as that result
    stays below the overflow threshold.  Binary64 with a C library [pow]
    accurate to one unit in the last place meets it with [eps = 2^-52];
    exact arithmetic meets it with [eps = 0]. *)
Record StandardModel (A : Arith) (val : num A -> Q) (eps : Q) : Prop :=
  { sm_eps : 0 <= eps;
    sm_one : val (one A) == 1;
    sm_add : forall x y,
        Qabs (val x + val y) <= overflow_threshold ->
        rounded eps (val (add A x y)) (val x + val y);
    sm_sub : forall x y,
        Qabs (val x - val y) <= overflow_threshold ->
        rounded eps (val (sub A x y)) (val x - val y);
    sm_mul : forall x y,
        Qabs (val x * val y) <= overflow_threshold ->
        rounded eps (val (mul A x y)) (val x * val y);
    sm_power : forall x n,
        (0 <= n)%Z ->
        Qabs (val x ^ n) <= overflow_threshold ->
        exists p, power A x n = Ok p /\ rounded eps (val p) (val x ^ n) }.

(** The rounding unit of binary64 arithmetic with a [pow] accurate to one
    unit in the last place: [2^-52]. *)
Definition eps_binary64 : Q := 1 # 4503599627370496.

(** The parameter ranges the spec states for the tolerance of the
    calculator: values up to [10^8], up to 30 periods, rates in
    [-0.1, 0.2]. *)
Definition in_tested_ranges (iv fee r : Q) (n : Z) : Prop :=
  0 <= iv /\ iv <= 100000000
  /\ (0 <= n)%Z /\ (n <= 30)%Z
  /\ - (1 # 10) <= fee /\ fee <= 2 # 10
  /\ - (1 # 10) <= r /\ r <= 2 # 10.

(** ** Running the methods *)

Lemma with_fees_loop_run (self : InvestmentCalculator) (xs : list Z) (acc : Q) :
  for_each xs
    (fun _year portfolio_value =>
       r <- getattr annual_return ;;
       f <- getattr fee_percentage ;;
       ret (portfolio_value * (1 + r - f)))
    acc self
  = (Ok (fold_left (grow self) xs acc), self).
Proof.
  revert acc. induction xs as [|x xs IH]; intros acc; cbn.
  - reflexivity.
  - apply IH.
Qed.

Lemma future_value_with_fees_run (self : InvestmentCalculator) :
  future_value_with_fees self
  = (Ok (fold_left (grow self) (range (years self)) (initial_value self)), self).
Proof.
  unfold future_value_with_fees. cbn.
  apply with_fees_loop_run.
Qed.

Lemma future_value_no_fees_run (self : InvestmentCalculator) :
  future_value_no_fees self
  = (p <- py_pow (1 + annual_return self) (years self) ;;
     ret (initial_value self * p), self).
Proof.
  unfold future_value_no_fees, getattr, eval_expr. cbn.
  destruct (py_pow _ _); reflexivity.
Qed.

Lemma py_pow_nonneg (b : Q) (e : Z) : (0 <= e)%Z -> py_pow b e = Ok (b ^ e).
Proof.
  intros He. unfold py_pow.
  destruct (Z.ltb_spec e 0) as [Hlt|_]; [lia|reflexivity].
Qed.

Lemma length_range (n : Z) : length (range n) = Z.to_nat n.
Proof. unfold range. now rewrite length_map, length_seq. Qed.

Lemma range_nonpos (n : Z) : (n <= 0)%Z -> range n = [].
Proof.
  intros Hn. unfold range.
  replace (Z.to_nat n) with 0%nat by lia. reflexivity.
Qed.

(** ** Powers of rationals *)

Lemma Qpower_succ (a : Q) (n : nat) :
  a ^ Z.of_nat (S n) == a * a ^ Z.of_nat n.
Proof.
  rewrite Nat2Z.inj_succ, <- Z.add_1_l.
  rewrite Qpower_plus' by lia. now rewrite Qpower_1_r.
Qed.

Lemma fold_grow_power (self : InvestmentCalculator) (xs : list Z) (acc : Q) :
  fold_left (grow self) xs acc
  == acc * (1 + annual_return self - fee_percentage self) ^ Z.of_nat (length xs).
Proof.
  revert acc. induction xs as [|x xs IH]; intros acc.
  - cbn. ring.
  - cbn [fold_left length]. rewrite IH, Qpower_succ. unfold grow. ring.
Qed.

Lemma Qpower_le_base (a b : Q) (n : nat) :
  0 <= a -> a <= b -> a ^ Z.of_nat n <= b ^ Z.of_nat n.
Proof.
  intros Ha Hab. induction n as [|n IH].
  - cbn. apply Qle_refl.
  - rewrite !Qpower_succ.
    assert (0 <= a ^ Z.of_nat n) by (apply Qpower_0_le; exact Ha).
    nra.
Qed.

Lemma Qpower_abs_le_base (a c : Q) (n : nat) :
  - a <= c -> c <= a ->
  - a ^ Z.of_nat n <= c ^ Z.of_nat n /\ c ^ Z.of_nat n <= a ^ Z.of_nat n.
Proof.
  intros Hlo Hhi. induction n as [|n [IHlo IHhi]].
  - cbn. split; [discriminate | apply Qle_refl].
  - rewrite !Qpower_succ. split; nra.
Qed.

Lemma Qpower_gap_step (a c : Q) (n : nat) :
  1 <= c -> c <= a ->
  a ^ Z.of_nat n - c ^ Z.of_nat n
  <= a ^ Z.of_nat (S n) - c ^ Z.of_nat (S n).
Proof.
  intros Hc Hca. rewrite !Qpower_succ.
  assert (0 <= c ^ Z.of_nat n) by (apply Qpower_0_le; lra).
  assert (c ^ Z.of_nat n <= a ^ Z.of_nat n) by (apply Qpower_le_base; lra).
  nra.
Qed.

Lemma Qpower_gap_mono (a c : Q) (n k : nat) :
  1 <= c -> c <= a ->
  a ^ Z.of_nat n - c ^ Z.of_nat n
  <= a ^ Z.of_nat (n + k) - c ^ Z.of_nat (n + k).
Proof.
  intros Hc Hca. induction k as [|k IH].
  - rewrite Nat.add_0_r. apply Qle_refl.
  - rewrite Nat.add_succ_r.
    eapply Qle_trans; [exact IH | now apply Qpower_gap_step].
Qed.

(** ** What the methods return *)

Lemma value_of_future_value_with_fees (self : InvestmentCalculator) :
  exists with_fees,
    value_of future_value_with_fees self = Ok with_fees /\
    with_fees ==
      initial_value self
      * (1 + annual_return self - fee_percentage self)
        ^ Z.of_nat (Z.to_nat (years self)).
Proof.
  unfold value_of. rewrite future_value_with_fees_run. cbn [fst].
  eexists. split; [reflexivity|].
  now rewrite fold_grow_power, length_range.
Qed.

Lemma value_of_future_value_no_fees (self : InvestmentCalculator) :
  (0 <= years self)%Z ->
  value_of future_value_no_fees self
  = Ok (initial_value self * (1 + annual_return self) ^ years self).
Proof.
  intros Hy. unfold value_of.
  rewrite future_value_no_fees_run, py_pow_nonneg by exact Hy. reflexivity.
Qed.

Lemma value_of_total_fees_paid (self : InvestmentCalculator) :
  value_of total_fees_paid self
  = (no_fees <- value_of future_value_no_fees self ;;
     with_fees <- value_of future_value_with_fees self ;;
     ret (no_fees - with_fees)).
Proof.
  unfold value_of, total_fees_paid. cbv [bind ret Monad_Method Monad_result].
  rewrite future_value_no_fees_run, future_value_with_fees_run. cbn.
  destruct (py_pow _ _); reflexivity.
Qed.

Lemma total_fees_paid_nonneg_years (self : InvestmentCalculator) :
  (0 <= years self)%Z ->
  exists fees,
    value_of total_fees_paid self = Ok fees /\
    fees ==
      initial_value self * (1 + annual_return self) ^ years self
      - initial_value self
        * (1 + annual_return self - fee_percentage self) ^ years self.
Proof.
  intros Hy.
  destruct (value_of_future_value_with_fees self) as (wf & Hwf & Ewf).
  rewrite Z2Nat.id in Ewf by exact Hy.
  rewrite value_of_total_fees_paid, value_of_future_value_no_fees, Hwf by exact Hy.
  cbn. eexists. split; [reflexivity|]. now rewrite Ewf.
Qed.

(** * Properties *)

(** C4. [total_fees_paid] returns exactly the no-fee future value minus the
    with-fee future value (and raises when the no-fee value raises);
    [opportunity_cost] returns exactly what [total_fees_paid] returns; the
    script prints the same amount under both names. *)
Theorem total_fees_paid_is_difference (self : InvestmentCalculator) :
  value_of total_fees_paid self
  = (no_fees <- value_of future_value_no_fees self ;;
     with_fees <- value_of future_value_with_fees self ;;
     ret (no_fees - with_fees))
  /\ value_of opportunity_cost self = value_of total_fees_paid self
  /\ exists out, Investments.main = Ok out
       /\ Investments.opportunity_cost out = Investments.total_fees_paid out.
Proof.
  split; [apply value_of_total_fees_paid|].
  split; [reflexivity|].
  eexists. split; reflexivity.
Qed.

(** C9. [future_value_no_fees] does not depend on [fee_percentage]: two
    calculators that agree on the other three attributes get the same
    result from it. *)
Theorem future_value_no_fees_ignores_fee (c1 c2 : InvestmentCalculator) :
  initial_value c1 = initial_value c2 ->
  years c1 = years c2 ->
  annual_return c1 = annual_return c2 ->
  value_of future_value_no_fees c1 = value_of future_value_no_fees c2.
Proof.
  intros Hiv Hy Hr. unfold value_of.
  rewrite !future_value_no_fees_run, Hiv, Hy, Hr. reflexivity.
Qed.

Lemma future_value_no_fees_ignores_fee_witness :
  let c1 := init 2000000 (1 # 100) 15 (5 # 100) in
  let c2 := init 2000000 (2 # 100) 15 (5 # 100) in
  ~ fee_percentage c1 == fee_percentage c2 /\
  value_of future_value_no_fees c1 = value_of future_value_no_fees c2.
Proof.
  split.
  - discriminate.
  - apply (future_value_no_fees_ignores_fee
             (init 2000000 (1 # 100) 15 (5 # 100))
             (init 2000000 (2 # 100) 15 (5 # 100))); reflexivity.
Defined.

(** C10. Each of the four methods leaves the object as it found it, and so
    does the with-fee loop, whatever list it runs over and whatever the
    local variable holds. *)
Theorem methods_leave_object_unchanged (self : InvestmentCalculator) :
  object_after future_value_no_fees self = self
  /\ object_after future_value_with_fees self = self
  /\ object_after total_fees_paid self = self
  /\ object_after opportunity_cost self = self
  /\ forall (xs : list Z) (portfolio_value : Q),
       object_after
         (for_each xs
            (fun _year pv =>
               r <- getattr annual_return ;;
               f <- getattr fee_percentage ;;
               ret (pv * (1 + r - f)))
            portfolio_value) self = self.
Proof.
  assert (Hno : object_after future_value_no_fees self = self).
  { unfold object_after. rewrite future_value_no_fees_run. reflexivity. }
  assert (Hwith : object_after future_value_with_fees self = self).
  { unfold object_after. rewrite future_value_with_fees_run. reflexivity. }
  assert (Hdiff : object_after total_fees_paid self = self).
  { unfold object_after, total_fees_paid.
    cbv [bind ret Monad_Method Monad_result].
    rewrite future_value_no_fees_run, future_value_with_fees_run. cbn.
    destruct (py_pow _ _); reflexivity. }
  repeat split; try assumption.
  intros xs pv. unfold object_after. rewrite with_fees_loop_run. reflexivity.
Qed.

(** C5. With [years = 0] both future values are the initial value (the
    with-fee one is the very same number, untouched by the loop) and the
    total fee cost is zero. *)
Theorem zero_years (self : InvestmentCalculator) :
  years self = 0%Z ->
  exists no_fees with_fees fees,
    value_of future_value_no_fees self = Ok no_fees
    /\ value_of future_value_with_fees self = Ok with_fees
    /\ value_of total_fees_paid self = Ok fees
    /\ no_fees == initial_value self
    /\ with_fees = initial_value self
    /\ fees == 0.
Proof.
  intros Hy.
  assert (Hno : value_of future_value_no_fees self
                = Ok (initial_value self * (1 + annual_return self) ^ 0)).
  { rewrite value_of_future_value_no_fees by lia. now rewrite Hy. }
  assert (Hwith : value_of future_value_with_fees self = Ok (initial_value self)).
  { unfold value_of. rewrite future_value_with_fees_run, Hy. reflexivity. }
  do 3 eexists.
  split; [exact Hno|]. split; [exact Hwith|].
  split; [rewrite value_of_total_fees_paid, Hno, Hwith; reflexivity|].
  cbn. split; [ring|]. split; [reflexivity|ring].
Qed.

Lemma zero_years_witness :
  let self := init 1000000 (1 # 100) 0 (5 # 100) in
  years self = 0%Z /\
  exists no_fees with_fees fees,
    value_of future_value_no_fees self = Ok no_fees
    /\ value_of future_value_with_fees self = Ok with_fees
    /\ value_of total_fees_paid self = Ok fees
    /\ no_fees == initial_value self
    /\ with_fees = initial_value self
    /\ fees == 0.
Proof.
  split.
  - reflexivity.
  - apply (zero_years (init 1000000 (1 # 100) 0 (5 # 100))). reflexivity.
Defined.

(** In exact arithmetic, for a non-negative number of years the per-year
    loop returns the closed form
    [initial_value * (1 + return_rate - fee_rate) ^ periods] (equality of
    rationals). *)
Lemma loop_equals_closed_form (self : InvestmentCalculator) :
  (0 <= years self)%Z ->
  exists with_fees,
    value_of future_value_with_fees self = Ok with_fees
    /\ with_fees == future_value_with_fee_closed_form self.
Proof.
  intros Hy.
  destruct (value_of_future_value_with_fees self) as (wf & Hwf & Ewf).
  exists wf. split; [exact Hwf|].
  unfold future_value_with_fee_closed_form.
  now rewrite Ewf, Z2Nat.id by exact Hy.
Qed.

(** C8. With a negative number of years the loop body never runs and
    [future_value_with_fees] returns the initial value itself.
    [future_value_no_fees] gives no such guarantee: it multiplies the initial
    value by a negative power of [1 + annual_return] (or raises when that
    base is zero), and for instance turns 1 into 1/2 at a return of 100%
    over -1 years. *)
Theorem negative_years_skip_the_loop :
  (forall self : InvestmentCalculator,
     (years self < 0)%Z ->
     value_of future_value_with_fees self = Ok (initial_value self))
  /\ (forall self : InvestmentCalculator,
        (years self < 0)%Z ->
        value_of future_value_no_fees self
        = if Qeq_bool (1 + annual_return self) 0
          then Raise ZeroDivisionError
          else Ok (initial_value self * (1 + annual_return self) ^ years self))
  /\ (exists (self : InvestmentCalculator) (no_fees : Q),
        (years self < 0)%Z
        /\ value_of future_value_no_fees self = Ok no_fees
        /\ ~ no_fees == initial_value self).
Proof.
  split; [|split].
  - intros self Hy. unfold value_of.
    rewrite future_value_with_fees_run, range_nonpos by lia. reflexivity.
  - intros self Hy. unfold value_of.
    rewrite future_value_no_fees_run. unfold py_pow.
    destruct (Z.ltb_spec (years self) 0) as [_|Hge]; [|lia].
    cbn. destruct (Qeq_bool _ _); reflexivity.
  - exists (init 1 0 (-1) 1). eexists.
    split; [reflexivity|]. split; [reflexivity|]. discriminate.
Qed.

Lemma negative_years_skip_the_loop_witness :
  let self := init 1 0 (-1) 1 in
  (years self < 0)%Z
  /\ value_of future_value_with_fees self = Ok (initial_value self)
  /\ value_of future_value_no_fees self = Ok (1 * (1 # 2)).
Proof.
  split; [reflexivity|]. split.
  - apply (proj1 negative_years_skip_the_loop (init 1 0 (-1) 1)). reflexivity.
  - apply (proj1 (proj2 negative_years_skip_the_loop) (init 1 0 (-1) 1)).
    reflexivity.
Defined.





(** In exact arithmetic, for a non-negative initial value, a non-negative
    number of years and a fee rate with
    [0 <= fee_rate <= 2 * (1 + return_rate)] (the with-fee multiplier is no
    larger in absolute value than the no-fee multiplier), the future value
    with fees is at most the future value without fees. *)
Lemma with_fees_at_most_no_fees (self : InvestmentCalculator) :
  0 <= initial_value self ->
  (0 <= years self)%Z ->
  0 <= fee_percentage self ->
  fee_percentage self <= 2 * (1 + annual_return self) ->
  exists no_fees with_fees,
    value_of future_value_no_fees self = Ok no_fees
    /\ value_of future_value_with_fees self = Ok with_fees
    /\ with_fees <= no_fees.
Proof.
  intros Hiv Hy Hf Hmul.
  destruct (value_of_future_value_with_fees self) as (wf & Hwf & Ewf).
  eexists. exists wf.
  split; [apply value_of_future_value_no_fees; exact Hy|].
  split; [exact Hwf|].
  rewrite Ewf. rewrite <- (Z2Nat.id (years self)) at 2 by exact Hy.
  destruct (Qpower_abs_le_base (1 + annual_return self)
              (1 + annual_return self - fee_percentage self)
              (Z.to_nat (years self))) as [_ Hpow]; [lra | lra |].
  nra.
Qed.

(** In exact arithmetic, for a positive initial value, a positive fee rate
    and a return rate above the fee rate, the total fee cost over [n1] years
    is at most the total fee cost over [n2] years whenever
    [0 <= n1 <= n2]. *)
Lemma total_fees_monotone_in_years (iv f r : Q) (n1 n2 : Z) :
  0 < iv -> 0 < f -> f < r -> (0 <= n1)%Z -> (n1 <= n2)%Z ->
  exists fees1 fees2,
    value_of total_fees_paid (init iv f n1 r) = Ok fees1
    /\ value_of total_fees_paid (init iv f n2 r) = Ok fees2
    /\ fees1 <= fees2.
Proof.
  intros Hiv Hf Hfr Hn1 Hn12.
  assert (Hn2 : (0 <= n2)%Z) by lia.
  destruct (total_fees_paid_nonneg_years (init iv f n1 r) Hn1) as (x1 & H1 & E1).
  destruct (total_fees_paid_nonneg_years (init iv f n2 r) Hn2) as (x2 & H2 & E2).
  exists x1, x2. split; [exact H1|]. split; [exact H2|].
  cbn in E1, E2. rewrite E1, E2.
  assert (Hgap : (1 + r) ^ n1 - (1 + r - f) ^ n1
                 <= (1 + r) ^ n2 - (1 + r - f) ^ n2).
  { replace n2 with (Z.of_nat (Z.to_nat n1 + (Z.to_nat n2 - Z.to_nat n1))) by lia.
    rewrite <- (Z2Nat.id n1) at 1 2 by exact Hn1.
    apply Qpower_gap_mono; lra. }
  nra.
Qed.

(** C7 as stated fails on its first amount.  The script's future value
    without fees is 2,000,000 * 1.05^15 = 4,157,856.358..., more than 4
    dollars away from 4,157,851.91. *)
Lemma default_no_fees_is_not_4157851_91 :
  exists out,
    Investments.main = Ok out
    /\ 4 < Investments.future_value_no_fees out - (415785191 # 100)
    /\ ~ within (1 # 100) (Investments.future_value_no_fees out) (415785191 # 100).
Proof.
  remember Investments.main as run eqn:Erun. vm_compute in Erun. subst run.
  eexists. split; [reflexivity|]. cbn [Investments.future_value_no_fees].
  split; [vm_compute; reflexivity|].
  intros H. apply H. vm_compute. reflexivity.
Qed.

(** C7, amended.  For the default parameters (initial value 2,000,000, fee
    1%, 15 years, return 5%) the future value without fees is 4,157,856.36
    to the cent (within half a cent), and the total fees paid lie strictly
    between 500,000 and 600,000; the class gives the same two amounts as the
    script. *)
Theorem default_scenario :
  exists out no_fees fees,
    Investments.main = Ok out
    /\ value_of future_value_no_fees (init 2000000 (1 # 100) 15 (5 # 100)) = Ok no_fees
    /\ value_of total_fees_paid (init 2000000 (1 # 100) 15 (5 # 100)) = Ok fees
    /\ no_fees == Investments.future_value_no_fees out
    /\ fees == Investments.total_fees_paid out
    /\ within (1 # 200) (Investments.future_value_no_fees out) (415785636 # 100)
    /\ 500000 < Investments.total_fees_paid out
    /\ Investments.total_fees_paid out < 600000.
Proof.
  remember Investments.main as run eqn:Erun. vm_compute in Erun. subst run.
  remember (value_of future_value_no_fees _) as no eqn:Eno.
  vm_compute in Eno. subst no.
  remember (value_of total_fees_paid _) as tot eqn:Etot.
  vm_compute in Etot. subst tot.
  do 3 eexists.
  split; [reflexivity|]. split; [reflexivity|]. split; [reflexivity|].
  cbn [Investments.future_value_no_fees Investments.total_fees_paid].
  split; [vm_compute; reflexivity|]. split; [vm_compute; reflexivity|].
  split; [vm_compute; discriminate|].
  split; vm_compute; reflexivity.
Qed.


(** * Further properties of the calculator *)

(** ** Order properties *)






(** * The calculator on floats *)

(** ** Running it on binary64 *)


(** ** The class is the generic calculator on exact rationals *)

Lemma exact_instance_is_the_class (self : InvestmentCalculator) :
  let generic :=
    @Generic.mkCalculator exact (initial_value self) (fee_percentage self)
      (years self) (annual_return self) in
  value_of future_value_no_fees self = Generic.future_value_no_fees generic
  /\ value_of future_value_with_fees self
     = Generic.future_value_with_fees generic
  /\ value_of total_fees_paid self = Generic.total_fees_paid generic
  /\ value_of opportunity_cost self = Generic.opportunity_cost generic.
Proof.
  cbv zeta.
  assert (Hno : value_of future_value_no_fees self
                = Generic.future_value_no_fees
                    (@Generic.mkCalculator exact (initial_value self)
                       (fee_percentage self) (years self) (annual_return self))).
  { unfold value_of. rewrite future_value_no_fees_run. reflexivity. }
  assert (Hwith : value_of future_value_with_fees self
                  = Generic.future_value_with_fees
                      (@Generic.mkCalculator exact (initial_value self)
                         (fee_percentage self) (years self)
                         (annual_return self))).
  { unfold value_of. rewrite future_value_with_fees_run. reflexivity. }
  assert (Htotal : value_of total_fees_paid self
                   = Generic.total_fees_paid
                       (@Generic.mkCalculator exact (initial_value self)
                          (fee_percentage self) (years self)
                          (annual_return self))).
  { rewrite value_of_total_fees_paid, Hno, Hwith. reflexivity. }
  repeat split; assumption.
Qed.

(** ** Error analysis under the standard model *)

Lemma Qabs_bounds (t : Q) : 0 <= Qabs t /\ t <= Qabs t /\ - t <= Qabs t.
Proof.
  split; [apply Qabs_nonneg|]. split.
  - apply Qle_Qabs.
  - rewrite <- Qabs_opp. apply Qle_Qabs.
Qed.

Lemma Qabs_le_intro (t b : Q) : t <= b -> - t <= b -> Qabs t <= b.
Proof. intros H1 H2. apply Qabs_Qle_condition. split; lra. Qed.

Lemma rounded_abs (eps x y : Q) :
  rounded eps x y -> Qabs x <= Qabs y + eps * (Qabs y + 1).
Proof.
  unfold rounded. intros H.
  destruct (Qabs_bounds (x - y)) as (_ & H1 & H2).
  destruct (Qabs_bounds y) as (_ & H3 & H4).
  apply Qabs_le_intro; lra.
Qed.

Lemma loop_step_arith (eps B C w w' res k Ck Qk : Q) :
  0 <= eps -> 1 <= B -> 0 <= C -> C <= B -> 0 <= k ->
  0 <= Ck -> Ck <= Qk ->
  rounded eps w' (w * C) ->
  Qabs (res - w' * Ck) <= eps * k * (Qabs w' + 1) * Qk ->
  Qabs (res - w * (C * Ck))
  <= eps * (k + 1) * (Qabs w + 1) * (B * (1 + eps) * Qk).
Proof.
  intros Heps HB HC0 HCB Hk HCk0 HCkQ Hstep Hrest.
  pose proof (rounded_abs _ _ _ Hstep) as Hw'.
  unfold rounded in Hstep.
  rewrite Qabs_Qmult, (Qabs_pos C) in Hstep, Hw' by exact HC0.
  destruct (Qabs_bounds w) as (Ha0 & _ & _).
  destruct (Qabs_bounds w') as (Ha'0 & _ & _).
  set (a := Qabs w) in *. set (a' := Qabs w') in *.
  destruct (Qabs_bounds (w' - w * C)) as (_ & Hd1 & Hd2).
  destruct (Qabs_bounds (res - w' * Ck)) as (_ & Hr1 & Hr2).
  set (d := Qabs (w' - w * C)) in *.
  set (r := Qabs (res - w' * Ck)) in *.
  assert (HaC : a * C <= a * B) by nra.
  assert (HeaC : eps * (a * C) <= eps * (a * B)) by nra.
  assert (HeB : eps <= B * eps) by nra.
  assert (Hgrow : a' + 1 <= (a + 1) * (B * (1 + eps))) by nra.
  assert (HaC1 : a * C + 1 <= (a + 1) * (B * (1 + eps))) by nra.
  assert (HQk : 0 <= Qk) by lra.
  set (G := (a + 1) * (B * (1 + eps))) in *.
  assert (HeQ : 0 <= eps * Qk) by (apply Qmult_le_0_compat; assumption).
  assert (HekQ : 0 <= eps * k * Qk).
  { apply Qmult_le_0_compat; [apply Qmult_le_0_compat|]; assumption. }
  assert (Hr : r <= eps * k * G * Qk).
  { eapply Qle_trans; [exact Hrest|].
    assert ((a' + 1) * (eps * k * Qk) <= G * (eps * k * Qk))
      by (apply Qmult_le_compat_r; assumption).
    lra. }
  assert (HdC : d * Ck <= eps * G * Qk).
  { assert (d * Ck <= (eps * (a * C + 1)) * Qk).
    { apply Qmult_le_compat_nonneg; split; try assumption.
      unfold d. apply Qabs_nonneg. }
    assert ((a * C + 1) * (eps * Qk) <= G * (eps * Qk))
      by (apply Qmult_le_compat_r; assumption).
    lra. }
  assert (Hd1C : (w' - w * C) * Ck <= d * Ck)
    by (apply Qmult_le_compat_r; assumption).
  assert (Hd2C : - (w' - w * C) * Ck <= d * Ck)
    by (apply Qmult_le_compat_r; assumption).
  assert (Hgoal : eps * (k + 1) * (a + 1) * (B * (1 + eps) * Qk)
                  == eps * k * G * Qk + eps * G * Qk) by (unfold G; ring).
  rewrite Hgoal. clearbody G.
  apply Qabs_le_intro; lra.
Qed.

Lemma rounded_grow (eps B C w w' : Q) :
  0 <= eps -> 1 <= B -> 0 <= C -> C <= B ->
  rounded eps w' (w * C) ->
  Qabs w' + 1 <= (Qabs w + 1) * (B * (1 + eps)).
Proof.
  intros Heps HB HC0 HCB Hstep.
  pose proof (rounded_abs _ _ _ Hstep) as Hw'.
  rewrite Qabs_Qmult, (Qabs_pos C) in Hw' by exact HC0.
  destruct (Qabs_bounds w) as (Ha0 & _ & _).
  set (a := Qabs w) in *. set (a' := Qabs w') in *.
  assert (HaC : a * C <= a * B) by nra.
  assert (HeaC : eps * (a * C) <= eps * (a * B)) by nra.
  assert (HeB : eps <= B * eps) by nra.
  nra.
Qed.

Lemma below_threshold (x : Q) : x <= 10000000000000 -> x <= overflow_threshold.
Proof.
  intros H. eapply Qle_trans; [exact H|].
  unfold overflow_threshold. vm_compute. discriminate.
Qed.

Lemma power_diff (B x y : Q) (n : nat) :
  1 <= B -> 0 <= x -> x <= y -> y <= B ->
  0 <= y ^ Z.of_nat n - x ^ Z.of_nat n
  /\ y ^ Z.of_nat n - x ^ Z.of_nat n
     <= inject_Z (Z.of_nat n) * B ^ Z.of_nat n * (y - x).
Proof.
  intros HB Hx Hxy HyB. induction n as [|n [IH0 IH]].
  - change (Z.of_nat 0) with 0%Z.
    change (y ^ 0) with 1. change (x ^ 0) with 1. change (B ^ 0) with 1.
    change (inject_Z 0) with 0. split; lra.
  - rewrite !Qpower_succ, Nat2Z.inj_succ. unfold Z.succ.
    rewrite inject_Z_plus. change (inject_Z 1) with 1.
    assert (Hxn : 0 <= x ^ Z.of_nat n) by (apply Qpower_0_le; exact Hx).
    assert (HxB : x ^ Z.of_nat n <= B ^ Z.of_nat n)
      by (apply Qpower_le_base; lra).
    assert (Hn : 0 <= inject_Z (Z.of_nat n))
      by (change 0 with (inject_Z 0); rewrite <- Zle_Qle; lia).
    set (X := x ^ Z.of_nat n) in *. set (Y := y ^ Z.of_nat n) in *.
    set (Bn := B ^ Z.of_nat n) in *. set (k := inject_Z (Z.of_nat n)) in *.
    assert (H1 : y * (Y - X) <= B * (k * Bn * (y - x))).
    { apply Qmult_le_compat_nonneg; split; lra. }
    assert (H2 : X * (y - x) <= B * Bn * (y - x)).
    { assert (X * (y - x) <= Bn * (y - x))
        by (apply Qmult_le_compat_r; lra).
      assert (0 <= Bn * (y - x)) by (apply Qmult_le_0_compat; lra).
      assert (1 * (Bn * (y - x)) <= B * (Bn * (y - x)))
        by (apply Qmult_le_compat_r; lra).
      lra. }
    assert (H3 : 0 <= y * (Y - X)) by (apply Qmult_le_0_compat; lra).
    assert (H4 : 0 <= X * (y - x)) by (apply Qmult_le_0_compat; lra).
    split; lra.
Qed.

Lemma power_times_arith (eps IV P p res : Q) :
  0 <= eps -> eps <= 1 -> 0 <= IV -> 0 <= P ->
  rounded eps p P ->
  rounded eps res (IV * p) ->
  Qabs (res - IV * P) <= eps * (IV + 1) * (3 * P + 2).
Proof.
  intros He0 He1 HIV HP Hp Hres.
  pose proof (rounded_abs _ _ _ Hp) as Hpabs.
  unfold rounded in Hp, Hres.
  rewrite Qabs_Qmult, (Qabs_pos IV) in Hres by exact HIV.
  rewrite (Qabs_pos P) in Hp, Hpabs by exact HP.
  destruct (Qabs_bounds (p - P)) as (_ & Hd1 & Hd2).
  destruct (Qabs_bounds (res - IV * p)) as (_ & Hr1 & Hr2).
  destruct (Qabs_bounds p) as (Hp0 & _ & _).
  set (d := Qabs (p - P)) in *. set (r := Qabs (res - IV * p)) in *.
  set (a := Qabs p) in *.
  assert (HeP : eps * (P + 1) <= P + 1).
  { assert (eps * (P + 1) <= 1 * (P + 1))
      by (apply Qmult_le_compat_r; lra). lra. }
  assert (Ha : IV * a <= IV * (2 * P + 1)) by nra.
  assert (Hr : r <= eps * (IV * (2 * P + 1) + 1)).
  { eapply Qle_trans; [exact Hres|].
    assert (eps * (IV * a) <= eps * (IV * (2 * P + 1))) by nra. lra. }
  assert (HdIV : IV * d <= IV * (eps * (P + 1))) by nra.
  assert (Hd1IV : IV * (p - P) <= IV * d) by nra.
  assert (Hd2IV : - (IV * (p - P)) <= IV * d) by nra.
  assert (Hgoal : eps * (IV + 1) * (3 * P + 2)
                  == eps * (IV * (2 * P + 1) + 1) + IV * (eps * (P + 1))
                     + eps * (3 * P + 1)) by ring.
  assert (0 <= eps * (3 * P + 1)) by nra.
  rewrite Hgoal.
  apply Qabs_le_intro; lra.
Qed.

Lemma power_diff_abs (B x y : Q) (n : nat) :
  1 <= B -> 0 <= x -> x <= B -> 0 <= y -> y <= B ->
  Qabs (y ^ Z.of_nat n - x ^ Z.of_nat n)
  <= inject_Z (Z.of_nat n) * B ^ Z.of_nat n * Qabs (y - x).
Proof.
  intros HB Hx HxB Hy HyB.
  destruct (Qlt_le_dec y x) as [Hyx|Hxy].
  2: { destruct (power_diff B x y n HB Hx Hxy HyB) as [H0 H1].
       rewrite !Qabs_pos by lra. exact H1. }
  apply Qlt_le_weak in Hyx.
  destruct (power_diff B y x n HB Hy Hyx HxB) as [H0 H1].
  rewrite (Qabs_Qminus (y ^ Z.of_nat n)), (Qabs_Qminus y).
  rewrite !Qabs_pos by lra. exact H1.
Qed.

Lemma rounded_within (eps x y bound : Q) :
  0 <= eps -> rounded eps x y -> Qabs y + 1 <= bound ->
  Qabs (x - y) <= eps * bound.
Proof.
  intros He H Hb. unfold rounded in H.
  eapply Qle_trans; [exact H|]. nra.
Qed.

Lemma power_bound (x top bound : Q) (n : Z) :
  0 <= x -> x <= top -> 1 <= top -> top ^ 30 <= bound ->
  (0 <= n)%Z -> (n <= 30)%Z ->
  0 <= x ^ n /\ x ^ n <= bound.
Proof.
  intros Hx Hxt Ht Hb Hn0 Hn.
  split; [apply Qpower_0_le; exact Hx|].
  eapply Qle_trans; [|exact Hb].
  eapply Qle_trans; [|apply (Qpower_le_compat_l top n 30 Hn Ht)].
  rewrite <- (Z2Nat.id n) by exact Hn0.
  apply Qpower_le_base; assumption.
Qed.

Lemma compounded_30_years_general :
  ((13001 # 10000) * (1 + eps_binary64)) ^ 30 <= 2700.
Proof. vm_compute. discriminate. Qed.

Lemma compounded_30_years_fee_nonneg :
  ((12001 # 10000) * (1 + eps_binary64)) ^ 30 <= 240.
Proof. vm_compute. discriminate. Qed.

Section RoundedAnalysis.

Variable A : Arith.
Variable val : num A -> Q.
Variable eps : Q.
Hypothesis model : StandardModel A val eps.

Lemma loop_error (c : num A) (B : Q) :
  1 <= B -> 0 <= val c -> val c <= B ->
  forall (xs : list Z) (w : num A),
    (Qabs (val w) + 1) * (B * (1 + eps)) ^ Z.of_nat (length xs)
    <= overflow_threshold ->
    Qabs (val (fold_left (fun pv (_ : Z) => mul A pv c) xs w)
          - val w * val c ^ Z.of_nat (length xs))
    <= eps * inject_Z (Z.of_nat (length xs)) * (Qabs (val w) + 1)
       * (B * (1 + eps)) ^ Z.of_nat (length xs).
Proof.
  intros HB HC0 HCB.
  pose proof (sm_eps _ _ _ model) as Heps.
  assert (HQf : 1 <= B * (1 + eps)) by nra.
  induction xs as [|x xs IH]; intros w Hguard.
  - cbn [fold_left length]. change (Z.of_nat 0) with 0%Z.
    change (val c ^ 0) with 1. change ((B * (1 + eps)) ^ 0) with 1.
    setoid_replace (val w - val w * 1) with 0 by ring.
    change (Qabs 0) with 0. change (inject_Z 0) with 0.
    destruct (Qabs_bounds (val w)) as (Ha & _ & _). nra.
  - cbn [fold_left length] in Hguard |- *.
    set (k := length xs) in *.
    destruct (Qabs_bounds (val w)) as (Ha & _ & _).
    assert (HQk : 1 <= (B * (1 + eps)) ^ Z.of_nat k)
      by (apply Qpower_1_le; [exact HQf | lia]).
    rewrite Qpower_succ in Hguard.
    assert (Hmulguard : Qabs (val w * val c) <= overflow_threshold).
    { rewrite Qabs_Qmult, (Qabs_pos (val c)) by exact HC0.
      eapply Qle_trans; [|exact Hguard].
      set (Qk := (B * (1 + eps)) ^ Z.of_nat k) in *.
      assert (Qabs (val w) * val c <= Qabs (val w) * B) by nra.
      assert (0 <= Qabs (val w) * B) by nra.
      assert (0 <= Qabs (val w) * B * eps) by nra.
      assert (0 <= B * eps) by nra.
      assert (Qabs (val w) * B <= (Qabs (val w) + 1) * (B * (1 + eps))) by lra.
      assert ((Qabs (val w) + 1) * (B * (1 + eps)) * 1
              <= (Qabs (val w) + 1) * (B * (1 + eps)) * Qk).
      { apply Qmult_le_compat_nonneg; split; lra. }
      lra. }
    pose proof (sm_mul _ _ _ model w c Hmulguard) as Hstep.
    pose proof (rounded_grow _ _ _ _ _ Heps HB HC0 HCB Hstep) as Hgrow.
    assert (Hguard' : (Qabs (val (mul A w c)) + 1) * (B * (1 + eps)) ^ Z.of_nat k
                      <= overflow_threshold).
    { eapply Qle_trans; [|exact Hguard].
      set (Qk := (B * (1 + eps)) ^ Z.of_nat k) in *.
      assert ((Qabs (val (mul A w c)) + 1) * Qk
              <= (Qabs (val w) + 1) * (B * (1 + eps)) * Qk)
        by (apply Qmult_le_compat_r; lra).
      lra. }
    specialize (IH (mul A w c) Hguard').
    rewrite !Qpower_succ, Nat2Z.inj_succ.
    unfold Z.succ. rewrite inject_Z_plus. change (inject_Z 1) with 1.
    apply (loop_step_arith eps B (val c) (val w) (val (mul A w c)));
      try assumption.
    + change 0 with (inject_Z 0). rewrite <- Zle_Qle. lia.
    + apply Qpower_0_le. exact HC0.
    + apply Qpower_le_base; [exact HC0 | nra].
Qed.

Hypothesis eps_small : eps <= eps_binary64.

Let IV (self : Generic.Calculator A) : Q := val (Generic.initial_value self).
Let R (self : Generic.Calculator A) : Q := val (Generic.annual_return self).
Let F (self : Generic.Calculator A) : Q := val (Generic.fee_percentage self).
Let a (self : Generic.Calculator A) : Q := val (Generic.no_fee_multiplier self).
Let c (self : Generic.Calculator A) : Q := val (Generic.with_fee_multiplier self).

Lemma multipliers_rounded (self : Generic.Calculator A) :
  - (1 # 10) <= R self -> R self <= 2 # 10 ->
  - (1 # 10) <= F self -> F self <= 2 # 10 ->
  Qabs (a self - (1 + R self)) <= eps * 3
  /\ Qabs (c self - (a self - F self)) <= eps * 3.
Proof.
  intros HR0 HR1 HF0 HF1.
  pose proof (sm_eps _ _ _ model) as Heps.
  pose proof (sm_one _ _ _ model) as Hone.
  unfold a, c, R, F, Generic.with_fee_multiplier, Generic.no_fee_multiplier in *.
  set (r := val (Generic.annual_return self)) in *.
  set (f := val (Generic.fee_percentage self)) in *.
  assert (Hadd : rounded eps (val (add A (one A) (Generic.annual_return self)))
                   (1 + r)).
  { assert (Hg : Qabs (val (one A) + val (Generic.annual_return self))
                 <= overflow_threshold).
    { apply below_threshold. fold r. rewrite Hone, Qabs_pos by lra. lra. }
    pose proof (sm_add _ _ _ model _ _ Hg) as H. fold r in H.
    unfold rounded in *. rewrite Hone in H. exact H. }
  assert (Ha : Qabs (val (add A (one A) (Generic.annual_return self)) - (1 + r))
               <= eps * 3).
  { apply rounded_within; [exact Heps | exact Hadd |].
    rewrite Qabs_pos by lra. lra. }
  split; [exact Ha|].
  set (x := val (add A (one A) (Generic.annual_return self))) in *.
  apply Qabs_Qle_condition in Ha.
  assert (He3 : eps * 3 <= 1 # 1000) by (unfold eps_binary64 in eps_small; lra).
  assert (Hx : 0 <= x - f /\ x - f <= 2) by (split; lra).
  assert (Hsub : rounded eps
                   (val (sub A (add A (one A) (Generic.annual_return self))
                           (Generic.fee_percentage self)))
                   (x - f)).
  { apply (sm_sub _ _ _ model). apply below_threshold.
    fold x. fold f. rewrite Qabs_pos by lra. lra. }
  apply rounded_within; [exact Heps | exact Hsub |].
  rewrite Qabs_pos by lra. lra.
Qed.

Lemma with_fees_error (self : Generic.Calculator A) (B bound : Q) :
  1 <= B -> 0 <= c self -> c self <= B ->
  (B * (1 + eps_binary64)) ^ 30 <= bound -> bound <= 10000 ->
  0 <= IV self -> IV self <= 100000000 ->
  (0 <= Generic.years self)%Z -> (Generic.years self <= 30)%Z ->
  exists with_fees,
    Generic.future_value_with_fees self = Ok with_fees
    /\ Qabs (val with_fees - IV self * c self ^ Generic.years self)
       <= eps * (30 * 100000001 * bound).
Proof.
  intros HB Hc0 HcB Hb Hb4 HIV0 HIV1 Hn0 Hn.
  pose proof (sm_eps _ _ _ model) as Heps.
  eexists. split; [reflexivity|].
  assert (Hlen : Z.of_nat (length (range (Generic.years self)))
                 = Generic.years self)
    by (rewrite length_range; lia).
  assert (Htop : 1 <= B * (1 + eps_binary64))
    by (unfold eps_binary64; nra).
  assert (HQf : 0 <= B * (1 + eps) /\ B * (1 + eps) <= B * (1 + eps_binary64))
    by (split; nra).
  destruct (power_bound (B * (1 + eps)) (B * (1 + eps_binary64)) bound
              (Generic.years self) (proj1 HQf) (proj2 HQf) Htop Hb Hn0 Hn)
    as [HQ0 HQb].
  pose proof (loop_error (Generic.with_fee_multiplier self) B HB Hc0 HcB
                (range (Generic.years self)) (Generic.initial_value self)) as H.
  rewrite Hlen in H. fold (IV self) in H. fold (c self) in H.
  rewrite (Qabs_pos (IV self)) in H by exact HIV0.
  set (Qn := (B * (1 + eps)) ^ Generic.years self) in *.
  assert (Hk : 0 <= inject_Z (Generic.years self)
               /\ inject_Z (Generic.years self) <= 30).
  { split; [change 0 with (inject_Z 0) | change 30 with (inject_Z 30)];
      rewrite <- Zle_Qle; assumption. }
  set (k := inject_Z (Generic.years self)) in *.
  assert (Hprod1 : (IV self + 1) * Qn <= 100000001 * bound)
    by (apply Qmult_le_compat_nonneg; split; lra).
  assert (Hprod2 : k * ((IV self + 1) * Qn) <= 30 * (100000001 * bound)).
  { apply Qmult_le_compat_nonneg; split; try lra.
    apply Qmult_le_0_compat; lra. }
  eapply Qle_trans.
  - apply H. apply below_threshold. lra.
  - assert (eps * (k * ((IV self + 1) * Qn)) <= eps * (30 * (100000001 * bound)))
      by nra.
    lra.
Qed.

Lemma power_times_error (self : Generic.Calculator A) (x : num A) (B bound : Q) :
  1 <= B -> 0 <= val x -> val x <= B ->
  (B * (1 + eps_binary64)) ^ 30 <= bound -> bound <= 10000 ->
  0 <= IV self -> IV self <= 100000000 ->
  (0 <= Generic.years self)%Z -> (Generic.years self <= 30)%Z ->
  exists p,
    power A x (Generic.years self) = Ok p
    /\ Qabs (val (mul A (Generic.initial_value self) p)
             - IV self * val x ^ Generic.years self)
       <= eps * (100000001 * (3 * bound + 2)).
Proof.
  intros HB Hx0 HxB Hb Hb4 HIV0 HIV1 Hn0 Hn.
  pose proof (sm_eps _ _ _ model) as Heps.
  assert (Heps1 : eps <= 1) by (unfold eps_binary64 in eps_small; lra).
  assert (Htop : 1 <= B * (1 + eps_binary64))
    by (unfold eps_binary64; nra).
  assert (HxT : val x <= B * (1 + eps_binary64))
    by (unfold eps_binary64; nra).
  destruct (power_bound (val x) (B * (1 + eps_binary64)) bound
              (Generic.years self) Hx0 HxT Htop Hb Hn0 Hn) as [HP0 HPb].
  set (P := val x ^ Generic.years self) in *.
  assert (Hg : Qabs P <= overflow_threshold)
    by (apply below_threshold; rewrite Qabs_pos by exact HP0; lra).
  destruct (sm_power _ _ _ model x (Generic.years self) Hn0 Hg) as (p & Hp & Hpr).
  fold P in Hpr.
  exists p. split; [exact Hp|].
  pose proof (rounded_abs _ _ _ Hpr) as Hpabs.
  rewrite (Qabs_pos P) in Hpabs by exact HP0.
  assert (HeP : eps * (P + 1) <= P + 1) by nra.
  assert (Hg2 : Qabs (val (Generic.initial_value self) * val p)
                <= overflow_threshold).
  { apply below_threshold. fold (IV self).
    rewrite Qabs_Qmult, (Qabs_pos (IV self)) by exact HIV0.
    destruct (Qabs_bounds (val p)) as (Hp0 & _ & _).
    assert (IV self * Qabs (val p) <= 100000000 * (2 * bound + 1))
      by (apply Qmult_le_compat_nonneg; split; lra).
    lra. }
  pose proof (sm_mul _ _ _ model _ _ Hg2) as Hmul. fold (IV self) in Hmul.
  eapply Qle_trans.
  - apply (power_times_arith eps (IV self) P (val p)); assumption.
  - assert ((IV self + 1) * (3 * P + 2) <= 100000001 * (3 * bound + 2))
      by (apply Qmult_le_compat_nonneg; split; lra).
    assert (eps * ((IV self + 1) * (3 * P + 2))
            <= eps * (100000001 * (3 * bound + 2))) by nra.
    lra.
Qed.

Lemma Qabs_triangle_via (x y z : Q) :
  Qabs (x - y) <= Qabs (x - z) + Qabs (y - z).
Proof.
  destruct (Qabs_bounds (x - z)) as (_ & H1 & H2).
  destruct (Qabs_bounds (y - z)) as (_ & H3 & H4).
  apply Qabs_le_intro; lra.
Qed.

Lemma multipliers_in_range (self : Generic.Calculator A) :
  - (1 # 10) <= R self -> R self <= 2 # 10 ->
  - (1 # 10) <= F self -> F self <= 2 # 10 ->
  (- (eps * 3) <= a self - (1 + R self) /\ a self - (1 + R self) <= eps * 3)
  /\ (- (eps * 3) <= c self - (a self - F self)
      /\ c self - (a self - F self) <= eps * 3)
  /\ 0 <= eps /\ eps * 3 <= 1 # 100000.
Proof.
  intros HR0 HR1 HF0 HF1.
  destruct (multipliers_rounded self HR0 HR1 HF0 HF1) as [Ha Hc].
  apply Qabs_Qle_condition in Ha. apply Qabs_Qle_condition in Hc.
  pose proof (sm_eps _ _ _ model) as Heps.
  repeat split; try tauto.
  unfold eps_binary64 in eps_small. lra.
Qed.

Lemma closed_form_tolerance (self : Generic.Calculator A) :
  in_tested_ranges (IV self) (F self) (R self) (Generic.years self) ->
  exists with_fees closed_form,
    Generic.future_value_with_fees self = Ok with_fees
    /\ Generic.future_value_with_fee_closed_form self = Ok closed_form
    /\ Qabs (val with_fees - val closed_form) <= 10000000000000 * eps.
Proof.
  intros (HIV0 & HIV1 & Hn0 & Hn & HF0 & HF1 & HR0 & HR1).
  destruct (multipliers_in_range self HR0 HR1 HF0 HF1)
    as ((Ha0 & Ha1) & (Hc0 & Hc1) & Heps & He3).
  assert (HB : 1 <= 13001 # 10000) by (vm_compute; discriminate).
  assert (Hb4 : 2700 <= 10000) by (vm_compute; discriminate).
  assert (Hcpos : 0 <= c self) by lra.
  assert (HcB : c self <= 13001 # 10000) by lra.
  destruct (with_fees_error self _ _ HB Hcpos HcB
              compounded_30_years_general Hb4 HIV0 HIV1 Hn0 Hn)
    as (wf & Hwf & Ewf).
  destruct (power_times_error self (Generic.with_fee_multiplier self) _ _
              HB Hcpos HcB compounded_30_years_general Hb4 HIV0 HIV1 Hn0 Hn)
    as (p & Hp & Ecf).
  fold (c self) in Ecf.
  exists wf, (mul A (Generic.initial_value self) p).
  split; [exact Hwf|].
  split; [unfold Generic.future_value_with_fee_closed_form; rewrite Hp;
          reflexivity|].
  eapply Qle_trans; [apply (Qabs_triangle_via _ _
                              (IV self * c self ^ Generic.years self))|].
  lra.
Qed.

Lemma with_fees_below_no_fees_rounded (self : Generic.Calculator A) :
  in_tested_ranges (IV self) (F self) (R self) (Generic.years self) ->
  0 <= F self ->
  exists no_fees with_fees,
    Generic.future_value_no_fees self = Ok no_fees
    /\ Generic.future_value_with_fees self = Ok with_fees
    /\ val with_fees <= val no_fees + 10000000000000 * eps.
Proof.
  intros (HIV0 & HIV1 & Hn0 & Hn & _ & HF1 & HR0 & HR1) HF0.
  assert (HF0' : - (1 # 10) <= F self) by lra.
  destruct (multipliers_in_range self HR0 HR1 HF0' HF1)
    as ((Ha0 & Ha1) & (Hc0 & Hc1) & Heps & He3).
  assert (HB : 1 <= 12001 # 10000) by (vm_compute; discriminate).
  assert (Hb4 : 240 <= 10000) by (vm_compute; discriminate).
  assert (Hcpos : 0 <= c self) by lra.
  assert (HcB : c self <= 12001 # 10000) by lra.
  assert (Hapos : 0 <= a self) by lra.
  assert (HaB : a self <= 12001 # 10000) by lra.
  destruct (with_fees_error self _ _ HB Hcpos HcB
              compounded_30_years_fee_nonneg Hb4 HIV0 HIV1 Hn0 Hn)
    as (wf & Hwf & Ewf).
  destruct (power_times_error self (Generic.no_fee_multiplier self) _ _
              HB Hapos HaB compounded_30_years_fee_nonneg Hb4 HIV0 HIV1 Hn0 Hn)
    as (p & Hp & Enf).
  fold (a self) in Enf.
  exists (mul A (Generic.initial_value self) p), wf.
  split; [unfold Generic.future_value_no_fees; rewrite Hp; reflexivity|].
  split; [exact Hwf|].
  apply Qabs_Qle_condition in Ewf. apply Qabs_Qle_condition in Enf.
  (* the with-fee multiplier exceeds the no-fee one by at most 3 eps *)
  set (y := a self + eps * 3).
  assert (Hy : c self <= y) by (unfold y; lra).
  assert (HyB : y <= 12001 # 10000) by (unfold y; lra).
  assert (Hay : a self <= y) by (unfold y; lra).
  set (n := Generic.years self) in *.
  assert (Hcn : c self ^ n <= y ^ n).
  { rewrite <- (Z2Nat.id n) by exact Hn0. apply Qpower_le_base; assumption. }
  destruct (power_diff (12001 # 10000) (a self) y (Z.to_nat n)
              HB Hapos Hay HyB) as [_ Hdiff].
  rewrite Z2Nat.id in Hdiff by exact Hn0.
  assert (HBn : 0 <= (12001 # 10000) ^ n /\ (12001 # 10000) ^ n <= 240).
  { apply (power_bound (12001 # 10000) ((12001 # 10000) * (1 + eps_binary64)));
      [vm_compute; discriminate | vm_compute; discriminate
      | vm_compute; discriminate | exact compounded_30_years_fee_nonneg
      | exact Hn0 | exact Hn]. }
  assert (Hk : 0 <= inject_Z n /\ inject_Z n <= 30).
  { split; [change 0 with (inject_Z 0) | change 30 with (inject_Z 30)];
      rewrite <- Zle_Qle; assumption. }
  assert (Hya : y - a self == eps * 3) by (unfold y; ring).
  rewrite Hya in Hdiff.
  assert (HkB : inject_Z n * (12001 # 10000) ^ n <= 30 * 240)
    by (apply Qmult_le_compat_nonneg; split; lra).
  assert (Hgap : y ^ n - a self ^ n <= 30 * 240 * (eps * 3)).
  { eapply Qle_trans; [exact Hdiff|].
    apply Qmult_le_compat_r; lra. }
  assert (HIVgap : IV self * (c self ^ n - a self ^ n)
                   <= 100000000 * (30 * 240 * (eps * 3))).
  { destruct (Qlt_le_dec (c self ^ n - a self ^ n) 0) as [Hneg|Hpos].
    - assert (IV self * (c self ^ n - a self ^ n) <= 0) by nra. nra.
    - apply Qmult_le_compat_nonneg; split; lra. }
  lra.
Qed.

Lemma scaled_difference (iv x y k : Q) :
  0 <= iv -> iv <= 100000000 -> Qabs (x - y) <= k ->
  - (100000000 * k) <= iv * x - iv * y /\ iv * x - iv * y <= 100000000 * k.
Proof.
  intros H0 H1 H. apply Qabs_Qle_condition in H.
  assert (0 <= k) by lra.
  assert (iv * (x - y) <= iv * k) by nra.
  assert (- (iv * k) <= iv * (x - y)) by nra.
  assert (iv * k <= 100000000 * k) by nra.
  split; lra.
Qed.

Lemma total_fees_error (self : Generic.Calculator A) :
  0 <= IV self -> IV self <= 100000000 ->
  (0 <= Generic.years self)%Z -> (Generic.years self <= 30)%Z ->
  0 <= F self -> F self <= R self -> R self <= 2 # 10 ->
  exists fees,
    Generic.total_fees_paid self = Ok fees
    /\ Qabs (val fees
             - (IV self * (1 + R self) ^ Generic.years self
                - IV self * (1 + R self - F self) ^ Generic.years self))
       <= 10000000000000 * eps.
Proof.
  intros HIV0 HIV1 Hn0 Hn HF0 HFR HR1.
  assert (HR0 : - (1 # 10) <= R self) by lra.
  assert (HF0' : - (1 # 10) <= F self) by lra.
  assert (HF1 : F self <= 2 # 10) by lra.
  destruct (multipliers_in_range self HR0 HR1 HF0' HF1)
    as ((Ha0 & Ha1) & (Hc0 & Hc1) & Heps & He3).
  assert (HB : 1 <= 12001 # 10000) by (vm_compute; discriminate).
  assert (Hb4 : 240 <= 10000) by (vm_compute; discriminate).
  assert (Hcpos : 0 <= c self) by lra.
  assert (HcB : c self <= 12001 # 10000) by lra.
  assert (Hapos : 0 <= a self) by lra.
  assert (HaB : a self <= 12001 # 10000) by lra.
  destruct (with_fees_error self _ _ HB Hcpos HcB
              compounded_30_years_fee_nonneg Hb4 HIV0 HIV1 Hn0 Hn)
    as (wf & Hwf & Ewf).
  destruct (power_times_error self (Generic.no_fee_multiplier self) _ _
              HB Hapos HaB compounded_30_years_fee_nonneg Hb4 HIV0 HIV1 Hn0 Hn)
    as (p & Hp & Enf).
  fold (a self) in Enf.
  assert (Hnf : Generic.future_value_no_fees self
                = Ok (mul A (Generic.initial_value self) p))
    by (unfold Generic.future_value_no_fees; rewrite Hp; reflexivity).
  set (nf := mul A (Generic.initial_value self) p) in *.
  set (n := Generic.years self) in *.
  set (c0 := 1 + R self - F self). set (a0 := 1 + R self).
  assert (Ha0r : 0 <= a0 /\ a0 <= 12001 # 10000) by (unfold a0; split; lra).
  assert (Hc0r : 0 <= c0 /\ c0 <= 12001 # 10000) by (unfold c0; split; lra).
  assert (Hk : 0 <= inject_Z n /\ inject_Z n <= 30).
  { split; [change 0 with (inject_Z 0) | change 30 with (inject_Z 30)];
      rewrite <- Zle_Qle; assumption. }
  assert (HBn : 0 <= (12001 # 10000) ^ n /\ (12001 # 10000) ^ n <= 240).
  { apply (power_bound (12001 # 10000) ((12001 # 10000) * (1 + eps_binary64)));
      [vm_compute; discriminate | vm_compute; discriminate
      | vm_compute; discriminate | exact compounded_30_years_fee_nonneg
      | exact Hn0 | exact Hn]. }
  assert (HkB : inject_Z n * (12001 # 10000) ^ n <= 30 * 240)
    by (apply Qmult_le_compat_nonneg; split; lra).
  assert (HkB0 : 0 <= inject_Z n * (12001 # 10000) ^ n)
    by (apply Qmult_le_0_compat; lra).
  (* powers of the rounded multipliers against powers of the exact ones *)
  assert (Hda : Qabs (a self ^ n - a0 ^ n) <= 30 * 240 * (eps * 3)).
  { pose proof (power_diff_abs (12001 # 10000) a0 (a self) (Z.to_nat n) HB
                  (proj1 Ha0r) (proj2 Ha0r) Hapos HaB) as H.
    rewrite Z2Nat.id in H by exact Hn0.
    eapply Qle_trans; [exact H|].
    apply Qmult_le_compat_nonneg; split; try lra.
    - apply Qabs_nonneg.
    - apply Qabs_le_intro; unfold a0; lra. }
  assert (Hdc : Qabs (c self ^ n - c0 ^ n) <= 30 * 240 * (eps * 6)).
  { pose proof (power_diff_abs (12001 # 10000) c0 (c self) (Z.to_nat n) HB
                  (proj1 Hc0r) (proj2 Hc0r) Hcpos HcB) as H.
    rewrite Z2Nat.id in H by exact Hn0.
    eapply Qle_trans; [exact H|].
    apply Qmult_le_compat_nonneg; split; try lra.
    - apply Qabs_nonneg.
    - apply Qabs_le_intro; unfold c0; lra. }
  destruct (scaled_difference (IV self) _ _ _ HIV0 HIV1 Hda) as [Hda0 Hda1].
  destruct (scaled_difference (IV self) _ _ _ HIV0 HIV1 Hdc) as [Hdc0 Hdc1].
  apply Qabs_Qle_condition in Ewf. apply Qabs_Qle_condition in Enf.
  (* magnitudes of the exact values *)
  assert (Han : 0 <= a0 ^ n /\ a0 ^ n <= 240).
  { apply (power_bound a0 ((12001 # 10000) * (1 + eps_binary64)));
      [tauto | unfold eps_binary64; lra | vm_compute; discriminate
      | exact compounded_30_years_fee_nonneg | exact Hn0 | exact Hn]. }
  assert (Hcn : 0 <= c0 ^ n /\ c0 ^ n <= 240).
  { apply (power_bound c0 ((12001 # 10000) * (1 + eps_binary64)));
      [tauto | unfold eps_binary64; lra | vm_compute; discriminate
      | exact compounded_30_years_fee_nonneg | exact Hn0 | exact Hn]. }
  assert (HIVa : 0 <= IV self * a0 ^ n /\ IV self * a0 ^ n <= 100000000 * 240).
  { split; [apply Qmult_le_0_compat; tauto|].
    apply Qmult_le_compat_nonneg; split; tauto. }
  assert (HIVc : 0 <= IV self * c0 ^ n /\ IV self * c0 ^ n <= 100000000 * 240).
  { split; [apply Qmult_le_0_compat; tauto|].
    apply Qmult_le_compat_nonneg; split; tauto. }
  assert (Hdiffabs : Qabs (val nf - val wf) + 1 <= 50000000001).
  { assert (Qabs (val nf - val wf) <= 50000000000)
      by (apply Qabs_le_intro; lra).
    lra. }
  assert (Hsub : rounded eps (val (sub A nf wf)) (val nf - val wf)).
  { apply (sm_sub _ _ _ model). apply below_threshold. lra. }
  pose proof (rounded_within _ _ _ _ Heps Hsub Hdiffabs) as Hfees.
  apply Qabs_Qle_condition in Hfees.
  exists (sub A nf wf).
  split; [unfold Generic.total_fees_paid; rewrite Hnf, Hwf; reflexivity|].
  apply Qabs_le_intro; lra.
Qed.

Lemma total_fees_monotone_in_years_rounded (iv fee r : num A) (n1 n2 : Z) :
  0 < val iv -> val iv <= 100000000 ->
  0 < val fee -> val fee < val r -> val r <= 2 # 10 ->
  (0 <= n1)%Z -> (n1 <= n2)%Z -> (n2 <= 30)%Z ->
  exists fees1 fees2,
    Generic.total_fees_paid (Generic.mkCalculator iv fee n1 r) = Ok fees1
    /\ Generic.total_fees_paid (Generic.mkCalculator iv fee n2 r) = Ok fees2
    /\ val fees1 <= val fees2 + 20000000000000 * eps.
Proof.
  intros Hiv0 Hiv1 Hf0 Hfr Hr1 Hn1 Hn12 Hn2.
  assert (Hn1' : (n1 <= 30)%Z) by lia.
  assert (Hn2' : (0 <= n2)%Z) by lia.
  destruct (total_fees_error (Generic.mkCalculator iv fee n1 r))
    as (x1 & H1 & E1);
    try (unfold IV, R, F; cbn; lra); try (cbn; assumption).
  destruct (total_fees_error (Generic.mkCalculator iv fee n2 r))
    as (x2 & H2 & E2);
    try (unfold IV, R, F; cbn; lra); try (cbn; assumption).
  exists x1, x2. split; [exact H1|]. split; [exact H2|].
  unfold IV, R, F in E1, E2.
  cbn [Generic.initial_value Generic.annual_return Generic.fee_percentage
       Generic.years] in E1, E2.
  apply Qabs_Qle_condition in E1. apply Qabs_Qle_condition in E2.
  assert (Hgap : (1 + val r) ^ n1 - (1 + val r - val fee) ^ n1
                 <= (1 + val r) ^ n2 - (1 + val r - val fee) ^ n2).
  { replace n2 with (Z.of_nat (Z.to_nat n1 + (Z.to_nat n2 - Z.to_nat n1))) by lia.
    rewrite <- (Z2Nat.id n1) at 1 2 by exact Hn1.
    apply Qpower_gap_mono; lra. }
  assert (val iv * ((1 + val r) ^ n1 - (1 + val r - val fee) ^ n1)
          <= val iv * ((1 + val r) ^ n2 - (1 + val r - val fee) ^ n2)) by nra.
  lra.
Qed.

End RoundedAnalysis.

Lemma exact_standard_model : StandardModel exact (fun x => x) 0.
Proof.
  assert (Hexact : forall y : Q, rounded 0 y y).
  { intros y. unfold rounded.
    setoid_replace (y - y) with 0 by ring.
    change (Qabs 0) with 0. lra. }
  constructor; cbn.
  - apply Qle_refl.
  - reflexivity.
  - intros x y _. apply Hexact.
  - intros x y _. apply Hexact.
  - intros x y _. apply Hexact.
  - intros x n Hn _. exists (x ^ n). split; [apply py_pow_nonneg; exact Hn|].
    apply Hexact.
Qed.

Lemma tolerance_half_a_cent (eps k : Q) :
  0 <= eps -> eps <= eps_binary64 -> 0 <= k -> k <= 20000000000000 ->
  k * eps <= 1 # 200.
Proof.
  intros He0 He1 Hk0 Hk1.
  assert (k * eps <= 20000000000000 * eps_binary64)
    by (apply Qmult_le_compat_nonneg; split; assumption).
  assert (20000000000000 * eps_binary64 <= 1 # 200)
    by (vm_compute; discriminate).
  lra.
Qed.

(** ** The claims on rounded arithmetic *)

(** On floats the two formulations can differ in the last place and still
    agree to the cent.  For an initial value of 1000000.0, a fee of 0.01, 10
    years and a return of 0.0 the loop gives 904382.0750088043, and the
    closed form gives 904382.0750088043 or 904382.0750088044 according to
    which of the two floats next to the exact value of 0.99 ** 10 the C
    library's [pow] returns. *)
Lemma loop_and_closed_form_on_floats :
  let lo := 0.9043820750088043%float in
  let hi := 0.9043820750088044%float in
  float_value lo < float_value (1 + 0 - 0.01)%float ^ 10
  /\ float_value (1 + 0 - 0.01)%float ^ 10 < float_value hi
  /\ next_up lo = hi
  /\ Forall
       (fun p =>
          let self := float_calculator 1000000 0.01 10 0 (fun _ _ => p) in
          exists with_fees closed_form,
            Generic.future_value_with_fees self = Ok with_fees
            /\ Generic.future_value_with_fee_closed_form self = Ok closed_form
            /\ Qabs (float_value with_fees - float_value closed_form)
               <= 1 # 200)
       [lo; hi]
  /\ Generic.future_value_with_fees
       (float_calculator 1000000 0.01 10 0 (fun _ _ => hi))
     <> Generic.future_value_with_fee_closed_form
          (float_calculator 1000000 0.01 10 0 (fun _ _ => hi)).
Proof.
  cbv zeta.
  split; [vm_compute; reflexivity|]. split; [vm_compute; reflexivity|].
  split; [vm_compute; reflexivity|].
  split.
  - repeat constructor; do 2 eexists;
      (split; [vm_compute; reflexivity|]); (split; [vm_compute; reflexivity|]);
      vm_compute; discriminate.
  - intros H.
    apply (f_equal (fun r : result float =>
                      match r with
                      | Ok v => PrimFloat.eqb v 904382.0750088043
                      | Raise _ => false
                      end)) in H.
    vm_compute in H. discriminate H.
Qed.



(** On floats the with-fee value can exceed the no-fee value by rounding
    alone, even with a fee of zero: for an initial value of 100000.0, a
    return of 0.07 and 10 years the loop gives 196715.13572895669 and the
    power gives 196715.13572895664, for either float next to the exact value
    of 1.07 ** 10. *)
Lemma with_fees_can_exceed_no_fees_by_rounding :
  let lo := 1.9671513572895662%float in
  let hi := 1.9671513572895665%float in
  float_value lo < float_value (1 + 0.07)%float ^ 10
  /\ float_value (1 + 0.07)%float ^ 10 < float_value hi
  /\ next_up lo = hi
  /\ Forall
       (fun p =>
          let self := float_calculator 100000 0 10 0.07 (fun _ _ => p) in
          exists no_fees with_fees,
            Generic.future_value_no_fees self = Ok no_fees
            /\ Generic.future_value_with_fees self = Ok with_fees
            /\ PrimFloat.ltb no_fees with_fees = true)
       [lo; hi].
Proof.
  cbv zeta.
  split; [vm_compute; reflexivity|]. split; [vm_compute; reflexivity|].
  split; [vm_compute; reflexivity|].
  repeat constructor; do 2 eexists;
    (split; [vm_compute; reflexivity|]); (split; [vm_compute; reflexivity|]);
    vm_compute; reflexivity.
Qed.





(** ** Further properties on rounded arithmetic *)

Lemma fold_ignores_elements {T : Type} (g : T -> T) (xs : list Z) (acc : T) :
  fold_left (fun pv (_ : Z) => g pv) xs acc = Nat.iter (length xs) g acc.
Proof.
  revert acc. induction xs as [|x xs IH]; intros acc.
  - reflexivity.
  - cbn [fold_left length]. rewrite IH. symmetry. apply Nat.iter_succ_r.
Qed.

(** X13.  In every arithmetic (exact rationals, binary64 floats with any
    [pow]) the with-fee loop composes: running the calculator for [m] years
    on the value reached after [n] years returns the very same number as
    running it for [n + m] years, for non-negative [n] and [m]. *)
Theorem with_fees_compounding_composes
  (A : Arith) (iv fee r : num A) (n m : Z) :
  (0 <= n)%Z -> (0 <= m)%Z ->
  exists mid,
    Generic.future_value_with_fees (Generic.mkCalculator iv fee n r) = Ok mid
    /\ Generic.future_value_with_fees (Generic.mkCalculator mid fee m r)
       = Generic.future_value_with_fees (Generic.mkCalculator iv fee (n + m) r).
Proof.
  intros Hn Hm. eexists. split; [reflexivity|].
  unfold Generic.future_value_with_fees, Generic.with_fee_multiplier.
  cbn [Generic.initial_value Generic.fee_percentage Generic.years
       Generic.annual_return].
  rewrite !fold_ignores_elements, !length_range.
  replace (Z.to_nat (n + m)) with (Z.to_nat m + Z.to_nat n)%nat by lia.
  now rewrite Nat.iter_add.
Qed.

Lemma with_fees_compounding_composes_witness :
  (0 <= 5)%Z /\ (0 <= 10)%Z /\
  exists mid : float,
    Generic.future_value_with_fees
      (float_calculator 2000000 0.01 5 0.05 (fun b _ => b))
    = Ok mid
    /\ Generic.future_value_with_fees
         (float_calculator mid 0.01 10 0.05 (fun b _ => b))
       = Generic.future_value_with_fees
           (float_calculator 2000000 0.01 (5 + 10) 0.05 (fun b _ => b)).
Proof.
  split; [lia|]. split; [lia|].
  exact (with_fees_compounding_composes (binary64 (fun b _ => b))
           2000000%float 0.01%float 0.05%float 5 10
           ltac:(lia) ltac:(lia)).
Defined.


